(** * NativeUtils sample native library: [src/native-lib/sample.c]

    A shallow embedding of the exported C functions [avg], [ptrSize],
    [Java_deltix_NativeUtilsSample_00024Imports_avg] and [DllMain], and the
    properties of them that the specification states.

    - [int32_t] values are integers of [Z] with the two's-complement
      wrap-around written out ([Int32.wrap]).
    - [double] values are IEEE-754 binary64 numbers, as the standard
      library's [spec_float] at precision 53 and maximal exponent 1024, with
      its correctly rounded operations ([SFmul], [SFadd], [binary_normalize]).
    - [void *] values are addresses in [Z]. *)

From Stdlib Require Import ZArith Lia Bool List String QArith Qpower.
From Stdlib Require Import SpecFloat PrimFloat FloatOps.
Import ListNotations.

Local Open Scope Z_scope.

(** ** [int32_t] *)

Module Int32.

Definition modulus : Z := 2 ^ 32.
Definition min_signed : Z := - 2 ^ 31.
Definition max_signed : Z := 2 ^ 31 - 1.

Definition in_range (z : Z) : Prop := min_signed <= z <= max_signed.

(** The representative of [z] modulo [2^32] in the signed range. *)
Definition wrap (z : Z) : Z := (z - min_signed) mod modulus + min_signed.

(** [a + b] on two [int32_t] operands: both are promoted to [int], which is
    32 bits wide on every target of the library, and added there.  The C
    standard leaves a sum outside the range undefined; the embedding takes
    what the two's-complement hardware adder gives, the wrapped sum. *)
Definition add (a b : Z) : Z := wrap (a + b).

End Int32.

(** ** [double] *)

Module Double.

Definition prec : Z := 53.
Definition emax : Z := 1024.

Definition double : Type := spec_float.

(** Conversion of an [int] to [double] (the usual arithmetic conversion of
    the left operand of [*]), rounding to nearest even. *)
Definition of_int (z : Z) : double := binary_normalize prec emax z 0 false.

Definition mul (x y : double) : double := SFmul prec emax x y.
Definition add (x y : double) : double := SFadd prec emax x y.

(** The literal [0.5]: mantissa [2^52], exponent [-53]. *)
Definition half : double := S754_finite false 4503599627370496 (-53).

(** The normal number of sign [s] whose value is the positive integer [n]
    of at most 53 bits: [n] shifted left to a mantissa of 53 bits. *)
Definition normal (s : bool) (n : positive) : double :=
  S754_finite s
    (Nat.iter (Z.to_nat (prec - Zpos (digits2_pos n))) xO n)
    (Zpos (digits2_pos n) - prec).

Definition is_finite (x : double) : bool :=
  match x with
  | S754_zero _ | S754_finite _ _ _ => true
  | S754_infinity _ | S754_nan => false
  end.

(** The rational number a finite [double] stands for; infinities and NaN
    stand for none. *)
Definition to_Q (x : double) : option Q :=
  match x with
  | S754_zero _ => Some 0%Q
  | S754_finite s m e =>
      Some (inject_Z (cond_Zopp s (Zpos m)) * Qpower (2 # 1) e)%Q
  | S754_infinity _ | S754_nan => None
  end.

(** [x] is a number, and exactly the rational [q]. *)
Definition represents (x : double) (q : Q) : Prop :=
  match to_Q x with
  | Some r => (r == q)%Q
  | None => False
  end.

End Double.

(** ** Build targets

    The preprocessor conditions of the file test [_WIN32] and [_WIN64]; the
    width of a pointer is the other property of the target the code depends
    on. *)

Inductive os : Type := Windows | Posix.
Inductive width : Type := Bits32 | Bits64.

Record target : Type := { target_os : os; target_width : width }.

Definition defined_WIN32 (t : target) : bool :=
  match target_os t with Windows => true | Posix => false end.

Definition defined_WIN64 (t : target) : bool :=
  match target_os t, target_width t with
  | Windows, Bits64 => true
  | _, _ => false
  end.

(** Modelled from the spec: [sizeof(intptr_t)]; [intptr_t] comes from
    [<stdint.h>], which is not part of the repository.  The specification
    gives the byte width of a native address: 8 on a 64-bit build target and
    4 on a 32-bit one. *)
Definition sizeof_intptr_t (t : target) : Z :=
  match target_width t with
  | Bits32 => 4
  | Bits64 => 8
  end.

(** ** The functions of [sample.c] *)

Definition ptr : Type := Z.
Definition BOOL : Type := Z.
Definition DWORD : Type := Z.

(** [BOOL WINAPI DllMain(void *instance, DWORD reason, void *reserved)] *)
Definition DllMain (instance : ptr) (reason : DWORD) (reserved : ptr)
  : BOOL := 1.

(** [double avg(int32_t a, int32_t b) { return (a + b) * 0.5; }] *)
Definition avg (a b : Z) : Double.double :=
  Double.mul (Double.of_int (Int32.add a b)) Double.half.

(** [int ptrSize() { return sizeof(intptr_t); }]: the [size_t] value is
    converted to the return type [int]. *)
Definition ptrSize (t : target) : Z := Int32.wrap (sizeof_intptr_t t).

(** [double Java_deltix_NativeUtilsSample_00024Imports_avg
       (void *env, void *obj, int32_t a, int32_t b) { return avg(a, b); }] *)
Definition Java_deltix_NativeUtilsSample_00024Imports_avg
  (env obj : ptr) (a b : Z) : Double.double := avg a b.

(** The data-model sentence of the specification, taken by its words: the
    two inputs are converted to [double] first and combined by a
    floating-point addition and a multiplication.  It is compared with [avg]
    below. *)
Definition spec_avg_float_sum (a b : Z) : Double.double :=
  Double.mul (Double.add (Double.of_int a) (Double.of_int b)) Double.half.

(** A [BOOL] is true when it is not zero. *)
Definition BOOL_true (b : BOOL) : bool := negb (b =? 0).

(** ** The export table and calls through it

    [DllMain] is compiled under [#if defined(_WIN32)] only; the three
    [NATIVE_API] functions are compiled for every target. *)

Definition exports (t : target) : list string :=
  List.app
    (if defined_WIN32 t then ["DllMain"%string] else [])
    ["avg"%string; "ptrSize"%string;
     "Java_deltix_NativeUtilsSample_00024Imports_avg"%string].

Inductive call : Type :=
| Call_DllMain (instance : ptr) (reason : DWORD) (reserved : ptr)
| Call_avg (a b : Z)
| Call_ptrSize
| Call_Java_avg (env obj : ptr) (a b : Z).

Inductive value : Type :=
| Vint (z : Z)
| Vdouble (d : Double.double).

(** The value a call returns; [None] when the target does not have the
    function. *)
Definition call_result (t : target) (c : call) : option value :=
  match c with
  | Call_DllMain instance reason reserved =>
      if defined_WIN32 t
      then Some (Vint (DllMain instance reason reserved))
      else None
  | Call_avg a b => Some (Vdouble (avg a b))
  | Call_ptrSize => Some (Vint (ptrSize t))
  | Call_Java_avg env obj a b =>
      Some (Vdouble
              (Java_deltix_NativeUtilsSample_00024Imports_avg env obj a b))
  end.

(** A call as a step of the process: no function body reads or writes an
    object other than its own parameters, so the state [world] of the rest
    of the process is passed through as it is. *)
Definition invoke {world : Type} (t : target) (c : call) (w : world)
  : option value * world :=
  (call_result t c, w).

(** * Facts about binary64 rounding *)

Section Shifts.

(** [pshl n k] is [n] followed by [k] zero bits. *)
Lemma pshl_Z (n : positive) (k : nat) :
  Zpos (Nat.iter k xO n) = Zpos n * 2 ^ Z.of_nat k.
Proof.
  induction k as [|k IH].
  - simpl. lia.
  - rewrite Nat2Z.inj_succ, Z.pow_succ_r by lia.
    rewrite Nat.iter_succ, Pos2Z.inj_xO, IH. ring.
Qed.

Lemma pshl_inj (m n : positive) (k : nat) :
  Zpos m = Zpos n * 2 ^ Z.of_nat k -> m = Nat.iter k xO n.
Proof.
  intros H. rewrite <- pshl_Z in H. now injection H.
Qed.

Lemma pshl_digits (n : positive) (k : nat) :
  Zpos (digits2_pos (Nat.iter k xO n)) = Zpos (digits2_pos n) + Z.of_nat k.
Proof.
  induction k as [|k IH].
  - simpl. lia.
  - rewrite Nat.iter_succ. cbn [digits2_pos].
    rewrite Pos2Z.inj_succ, IH. lia.
Qed.

Lemma pos_iter_xO (n k : positive) :
  Pos.iter xO n k = Nat.iter (Pos.to_nat k) xO n.
Proof. apply Pos2Nat.inj_iter. Qed.

Lemma iter_pos_nat {A : Type} (f : A -> A) (p : positive) :
  forall x, iter_pos f p x = Nat.iter (Pos.to_nat p) f x.
Proof.
  induction p as [p IH|p IH|]; intros x; cbn [iter_pos].
  - rewrite !IH, Pos2Nat.inj_xI, <- Nat.iter_succ_r, <- Nat.iter_add.
    f_equal. lia.
  - rewrite !IH, Pos2Nat.inj_xO, <- Nat.iter_add. f_equal. lia.
  - reflexivity.
Qed.

(** Shifting right the zero bits that a left shift put in loses nothing. *)
Lemma shr_1_pshl (k : nat) :
  forall q : positive,
    Nat.iter k shr_1 (Build_shr_record (Zpos (Nat.iter k xO q)) false false)
    = Build_shr_record (Zpos q) false false.
Proof.
  induction k as [|k IH]; intros q.
  - reflexivity.
  - rewrite Nat.iter_succ_r, (Nat.iter_succ k _ xO). cbn [shr_1 orb].
    apply IH.
Qed.

(** The binary length of a positive number. *)
Lemma digits2_pos_bounds (n : positive) :
  2 ^ (Zpos (digits2_pos n) - 1) <= Zpos n < 2 ^ Zpos (digits2_pos n).
Proof.
  induction n as [n IH|n IH|]; cbn [digits2_pos].
  - rewrite Pos2Z.inj_succ, (Pos2Z.inj_xI n).
    replace (Z.succ (Zpos (digits2_pos n)) - 1)
      with (Z.succ (Zpos (digits2_pos n) - 1)) by lia.
    rewrite !Z.pow_succ_r by lia. lia.
  - rewrite Pos2Z.inj_succ, (Pos2Z.inj_xO n).
    replace (Z.succ (Zpos (digits2_pos n)) - 1)
      with (Z.succ (Zpos (digits2_pos n) - 1)) by lia.
    rewrite !Z.pow_succ_r by lia. lia.
  - change (1 <= 1 < 2). lia.
Qed.

Lemma digits2_pos_le (n : positive) (k : Z) :
  0 <= k -> Zpos n < 2 ^ k -> Zpos (digits2_pos n) <= k.
Proof.
  intros Hk Hn.
  destruct (digits2_pos_bounds n) as [Hlo _].
  destruct (Z_le_gt_dec (Zpos (digits2_pos n)) k) as [|Hgt]; [assumption|].
  assert (2 ^ k <= 2 ^ (Zpos (digits2_pos n) - 1))
    by (apply Z.pow_le_mono_r; lia).
  lia.
Qed.

End Shifts.

Section Rounding.

Lemma shr_pshl (m : positive) (k : nat) (e : Z) :
  shr (Build_shr_record (Zpos (Nat.iter k xO m)) false false) e (Z.of_nat k)
  = (Build_shr_record (Zpos m) false false, e + Z.of_nat k).
Proof.
  destruct k as [|k].
  - cbn [Z.of_nat shr Nat.iter nat_rect]. now rewrite Z.add_0_r.
  - cbn [Z.of_nat shr].
    now rewrite iter_pos_nat, SuccNat2Pos.id_succ, shr_1_pshl.
Qed.

Lemma fexp_normal (e : Z) :
  -1074 <= e - 53 -> fexp Double.prec Double.emax e = e - 53.
Proof.
  intros H. unfold fexp, emin, Double.prec, Double.emax. lia.
Qed.

(** A mantissa that is a number [n] of at most 53 bits followed by enough
    zero bits to reach 53 is rounded to [n], exactly, when the result is in
    the range of the normal numbers. *)
Lemma round_aux_exact (s : bool) (n : positive) (j : nat) (e : Z) :
  Zpos (digits2_pos n) <= 53 ->
  53 <= Zpos (digits2_pos n) + Z.of_nat j ->
  -1074 <= e + Zpos (digits2_pos n) + Z.of_nat j - 53 <= 971 ->
  binary_round_aux Double.prec Double.emax s
    (Zpos (Nat.iter j xO n)) e loc_Exact
  = S754_finite s (Nat.iter (Z.to_nat (53 - Zpos (digits2_pos n))) xO n)
      (e + Zpos (digits2_pos n) + Z.of_nat j - 53).
Proof.
  intros Hd Hj He.
  set (d := Zpos (digits2_pos n)) in *.
  set (r := Z.to_nat (53 - d)).
  set (k := (j - r)%nat).
  assert (Hjk : j = (k + r)%nat) by lia.
  set (m := Nat.iter r xO n).
  assert (Hm : Zpos (digits2_pos m) = 53)
    by (unfold m; rewrite pshl_digits; fold d; lia).
  assert (Hsplit : Nat.iter j xO n = Nat.iter k xO m)
    by (rewrite Hjk; apply Nat.iter_add).
  unfold binary_round_aux, shr_fexp.
  cbn [Zdigits2 shr_record_of_loc].
  rewrite pshl_digits. fold d.
  rewrite fexp_normal by lia.
  replace (d + Z.of_nat j + e - 53 - e) with (Z.of_nat k) by lia.
  rewrite Hsplit, shr_pshl.
  cbn [shr_m loc_of_shr_record round_nearest_even Zdigits2 shr_record_of_loc].
  rewrite Hm, fexp_normal by lia.
  replace (53 + (e + Z.of_nat k) - 53 - (e + Z.of_nat k)) with 0 by lia.
  cbn [shr shr_m].
  replace (e + Z.of_nat k <=? Double.emax - Double.prec) with true
    by (symmetry; apply Z.leb_le; unfold Double.emax, Double.prec; lia).
  f_equal. lia.
Qed.

Lemma round_exact (s : bool) (n : positive) (j : nat) (e : Z) :
  Zpos (digits2_pos n) <= 53 ->
  -1074 <= e + Zpos (digits2_pos n) + Z.of_nat j - 53 <= 971 ->
  binary_round Double.prec Double.emax s (Nat.iter j xO n) e
  = S754_finite s (Nat.iter (Z.to_nat (53 - Zpos (digits2_pos n))) xO n)
      (e + Zpos (digits2_pos n) + Z.of_nat j - 53).
Proof.
  intros Hd He.
  unfold binary_round, shl_align.
  rewrite pshl_digits, fexp_normal by lia.
  set (d := Zpos (digits2_pos n)) in *.
  destruct (d + Z.of_nat j + e - 53 - e) as [|p|p] eqn:Hp.
  - apply round_aux_exact; fold d; lia.
  - apply round_aux_exact; fold d; lia.
  - rewrite pos_iter_xO, <- Nat.iter_add.
    rewrite round_aux_exact; fold d; try (f_equal; lia); lia.
Qed.

Lemma of_int_pos (n : positive) :
  Zpos (digits2_pos n) <= 53 ->
  Double.of_int (Zpos n) = Double.normal false n.
Proof.
  intros Hd. unfold Double.of_int, Double.normal, binary_normalize.
  transitivity
    (binary_round Double.prec Double.emax false (Nat.iter 0 xO n) 0);
    [reflexivity|].
  rewrite round_exact by (cbn [Z.of_nat]; lia).
  reflexivity.
Qed.

Lemma of_int_neg (n : positive) :
  Zpos (digits2_pos n) <= 53 ->
  Double.of_int (Zneg n) = Double.normal true n.
Proof.
  intros Hd. unfold Double.of_int, Double.normal, binary_normalize.
  transitivity
    (binary_round Double.prec Double.emax true (Nat.iter 0 xO n) 0);
    [reflexivity|].
  rewrite round_exact by (cbn [Z.of_nat]; lia).
  reflexivity.
Qed.

(** Halving a normal number of 53 bits or fewer only lowers its exponent. *)
Lemma mul_half_normal (s : bool) (n : positive) :
  Zpos (digits2_pos n) <= 53 ->
  Double.mul (Double.normal s n) Double.half
  = S754_finite s
      (Nat.iter (Z.to_nat (53 - Zpos (digits2_pos n))) xO n)
      (Zpos (digits2_pos n) - 54).
Proof.
  intros Hd.
  unfold Double.mul, Double.normal, Double.half, SFmul.
  rewrite xorb_false_r.
  change (Double.prec - Zpos (digits2_pos n))
    with (53 - Zpos (digits2_pos n)).
  change (Zpos (digits2_pos n) - Double.prec)
    with (Zpos (digits2_pos n) - 53).
  remember (Nat.iter (Z.to_nat (53 - Zpos (digits2_pos n))) xO n)
    as m eqn:Hm.
  assert (Hmul : (m * 4503599627370496)%positive = Nat.iter 52 xO m).
  { apply pshl_inj. rewrite Pos2Z.inj_mul. f_equal. }
  rewrite Hmul, Hm, <- Nat.iter_add.
  rewrite round_aux_exact by lia.
  f_equal. lia.
Qed.

Lemma of_int_cond (s : bool) (n : positive) :
  Zpos (digits2_pos n) <= 53 ->
  Double.of_int (cond_Zopp s (Zpos n)) = Double.normal s n.
Proof.
  destruct s; [apply of_int_neg | apply of_int_pos].
Qed.

(** An integer of at most 53 bits, scaled up by a power of two and paired
    with the opposite exponent, normalizes to the integer itself. *)
Lemma normalize_scaled (c : Z) (j : nat) :
  Z.abs c < 2 ^ 53 ->
  binary_normalize Double.prec Double.emax
    (c * 2 ^ Z.of_nat j) (- Z.of_nat j) false
  = Double.of_int c.
Proof.
  intros Hc. destruct c as [|n|n].
  - reflexivity.
  - assert (Hd : Zpos (digits2_pos n) <= 53)
      by (apply digits2_pos_le; lia).
    rewrite of_int_pos, <- pshl_Z by assumption.
    cbn [binary_normalize]. rewrite round_exact by lia.
    unfold Double.normal, Double.prec. f_equal. lia.
  - assert (Hd : Zpos (digits2_pos n) <= 53)
      by (apply digits2_pos_le; lia).
    rewrite of_int_neg by assumption.
    change (Zneg n) with (- Zpos n).
    rewrite Z.mul_opp_l, <- pshl_Z.
    cbn [Z.opp binary_normalize]. rewrite round_exact by lia.
    unfold Double.normal, Double.prec. f_equal. lia.
Qed.

Lemma shl_align_normal (n : positive) (ez : Z) :
  Zpos (digits2_pos n) <= 53 ->
  ez <= Zpos (digits2_pos n) - 53 ->
  Zpos (fst (shl_align
               (Nat.iter (Z.to_nat (53 - Zpos (digits2_pos n))) xO n)
               (Zpos (digits2_pos n) - 53) ez))
  = Zpos n * 2 ^ (- ez).
Proof.
  intros Hd He. unfold shl_align.
  destruct (ez - (Zpos (digits2_pos n) - 53)) as [|p|p] eqn:Hp;
    cbn [fst].
  - rewrite pshl_Z. do 2 f_equal. lia.
  - lia.
  - rewrite pos_iter_xO, <- Nat.iter_add, pshl_Z. do 2 f_equal. lia.
Qed.

(** The sum of two integers of at most 32 bits is computed exactly. *)
Lemma add_normal (sa sb : bool) (na nb : positive) :
  Zpos (digits2_pos na) <= 32 ->
  Zpos (digits2_pos nb) <= 32 ->
  Double.add (Double.normal sa na) (Double.normal sb nb)
  = Double.of_int (cond_Zopp sa (Zpos na) + cond_Zopp sb (Zpos nb)).
Proof.
  intros Ha Hb.
  unfold Double.add, Double.normal, SFadd.
  change Double.prec with 53.
  set (ez := Z.min (Zpos (digits2_pos na) - 53) (Zpos (digits2_pos nb) - 53)).
  rewrite !shl_align_normal by lia.
  set (da := Zpos (digits2_pos na)) in *.
  set (db := Zpos (digits2_pos nb)) in *.
  set (j := Z.to_nat (- ez)).
  replace (- ez) with (Z.of_nat j) by lia.
  replace ez with (- Z.of_nat j) by lia.
  replace (cond_Zopp sa (Zpos na * 2 ^ Z.of_nat j)
           + cond_Zopp sb (Zpos nb * 2 ^ Z.of_nat j))
    with ((cond_Zopp sa (Zpos na) + cond_Zopp sb (Zpos nb))
          * 2 ^ Z.of_nat j)
    by (destruct sa, sb; cbn [cond_Zopp]; ring).
  apply normalize_scaled.
  assert (Zpos na < 2 ^ 32 /\ Zpos nb < 2 ^ 32) as [Hna Hnb].
  { split.
    - apply Z.lt_le_trans with (2 ^ da); [apply digits2_pos_bounds|].
      apply Z.pow_le_mono_r; lia.
    - apply Z.lt_le_trans with (2 ^ db); [apply digits2_pos_bounds|].
      apply Z.pow_le_mono_r; lia. }
  destruct sa, sb; cbn [cond_Zopp]; lia.
Qed.

Lemma add_of_int (a b : Z) :
  Z.abs a < 2 ^ 32 -> Z.abs b < 2 ^ 32 ->
  Double.add (Double.of_int a) (Double.of_int b) = Double.of_int (a + b).
Proof.
  intros Ha Hb.
  assert (Hbits : forall n : positive,
             Zpos n < 2 ^ 32 -> Zpos (digits2_pos n) <= 32)
    by (intros n Hn; apply digits2_pos_le; lia).
  assert (HnP : forall n : positive,
             Zpos n < 2 ^ 32 ->
             Double.of_int (Zpos n) = Double.normal false n).
  { intros n Hn. apply of_int_pos. specialize (Hbits n Hn). lia. }
  assert (HnN : forall n : positive,
             Zpos n < 2 ^ 32 ->
             Double.of_int (Zneg n) = Double.normal true n).
  { intros n Hn. apply of_int_neg. specialize (Hbits n Hn). lia. }
  destruct a as [|na|na]; destruct b as [|nb|nb];
    rewrite ?Z.add_0_l, ?Z.add_0_r;
    rewrite ?HnP, ?HnN by lia;
    try reflexivity.
  - apply (add_normal false false); apply Hbits; lia.
  - apply (add_normal false true); apply Hbits; lia.
  - apply (add_normal true false); apply Hbits; lia.
  - apply (add_normal true true); apply Hbits; lia.
Qed.

End Rounding.

(** * The rational values of the results *)

Section Values.

Lemma Qpower_2_shift (s : bool) (n : positive) (r : nat) (e : Z) :
  (inject_Z (cond_Zopp s (Zpos (Nat.iter r xO n))) * Qpower (2 # 1) e
   == inject_Z (cond_Zopp s (Zpos n)) * Qpower (2 # 1) (e + Z.of_nat r))%Q.
Proof.
  assert (H2 : ~ (2 # 1 == 0)%Q) by discriminate.
  rewrite Qpower_plus by assumption.
  rewrite <- (Zpower_Qpower 2 (Z.of_nat r)) by lia.
  replace (cond_Zopp s (Zpos (Nat.iter r xO n)))
    with (cond_Zopp s (Zpos n) * 2 ^ Z.of_nat r)
    by (rewrite pshl_Z; destruct s; cbn [cond_Zopp]; ring).
  rewrite inject_Z_mult. ring.
Qed.

Lemma normal_represents (s : bool) (n : positive) :
  Zpos (digits2_pos n) <= 53 ->
  Double.represents (Double.normal s n) (inject_Z (cond_Zopp s (Zpos n))).
Proof.
  intros Hd. unfold Double.represents, Double.normal, Double.to_Q,
    Double.prec.
  rewrite Qpower_2_shift.
  replace (Zpos (digits2_pos n) - 53
           + Z.of_nat (Z.to_nat (53 - Zpos (digits2_pos n)))) with 0
    by lia.
  cbn [Qpower]. ring.
Qed.

(** Conversion of an integer below [2^53] in absolute value is exact. *)
Lemma of_int_represents (z : Z) :
  Z.abs z < 2 ^ 53 -> Double.represents (Double.of_int z) (inject_Z z).
Proof.
  intros Hz. destruct z as [|n|n].
  - reflexivity.
  - assert (Hd : Zpos (digits2_pos n) <= 53)
      by (apply digits2_pos_le; lia).
    rewrite of_int_pos by assumption.
    now apply (normal_represents false).
  - assert (Hd : Zpos (digits2_pos n) <= 53)
      by (apply digits2_pos_le; lia).
    rewrite of_int_neg by assumption.
    now apply (normal_represents true).
Qed.

Lemma half_normal_represents (s : bool) (n : positive) :
  Zpos (digits2_pos n) <= 53 ->
  Double.represents (Double.mul (Double.normal s n) Double.half)
    (inject_Z (cond_Zopp s (Zpos n)) * (1 # 2)).
Proof.
  intros Hd. rewrite mul_half_normal by assumption.
  unfold Double.represents, Double.to_Q.
  rewrite Qpower_2_shift.
  replace (Zpos (digits2_pos n) - 54
           + Z.of_nat (Z.to_nat (53 - Zpos (digits2_pos n)))) with (-1)
    by lia.
  reflexivity.
Qed.

(** The product with [0.5] of the conversion of an integer below [2^53] in
    absolute value is exactly half the integer. *)
Lemma half_of_int_represents (z : Z) :
  Z.abs z < 2 ^ 53 ->
  Double.represents (Double.mul (Double.of_int z) Double.half)
    (inject_Z z * (1 # 2)).
Proof.
  intros Hz. destruct z as [|n|n].
  - reflexivity.
  - assert (Hd : Zpos (digits2_pos n) <= 53)
      by (apply digits2_pos_le; lia).
    rewrite of_int_pos by assumption.
    now apply (half_normal_represents false).
  - assert (Hd : Zpos (digits2_pos n) <= 53)
      by (apply digits2_pos_le; lia).
    rewrite of_int_neg by assumption.
    now apply (half_normal_represents true).
Qed.

Lemma represents_finite (x : Double.double) (q : Q) :
  Double.represents x q -> Double.is_finite x = true.
Proof. destruct x; cbn; tauto. Qed.

Lemma represents_unique (x : Double.double) (p q : Q) :
  Double.represents x p -> Double.represents x q -> (p == q)%Q.
Proof.
  unfold Double.represents. destruct (Double.to_Q x) as [r|]; [|tauto].
  intros Hp Hq. now rewrite <- Hp, <- Hq.
Qed.

End Values.

(** * [int32_t] wrap-around *)

Section Wrap.

Lemma wrap_in_range (z : Z) : Int32.in_range (Int32.wrap z).
Proof.
  unfold Int32.in_range, Int32.wrap, Int32.max_signed, Int32.min_signed,
    Int32.modulus.
  pose proof (Z.mod_pos_bound (z - - 2 ^ 31) (2 ^ 32) ltac:(lia)). lia.
Qed.

Lemma wrap_id (z : Z) : Int32.in_range z -> Int32.wrap z = z.
Proof.
  unfold Int32.in_range, Int32.wrap, Int32.max_signed, Int32.min_signed,
    Int32.modulus.
  intros Hz. rewrite Z.mod_small by lia. lia.
Qed.

Lemma wrap_fixed (z : Z) : Int32.wrap z = z -> Int32.in_range z.
Proof. intros H. rewrite <- H. apply wrap_in_range. Qed.

Lemma in_range_abs (z : Z) : Int32.in_range z -> Z.abs z < 2 ^ 32.
Proof.
  unfold Int32.in_range, Int32.max_signed, Int32.min_signed. lia.
Qed.

End Wrap.

(** * The properties of the specification *)

Lemma half_sum_Q (x : Double.double) (z : Z) :
  Double.represents x (inject_Z z * (1 # 2)) -> Double.represents x (z # 2).
Proof.
  unfold Double.represents. destruct (Double.to_Q x) as [r|]; [|tauto].
  intros H. rewrite H. unfold Qeq. cbn. lia.
Qed.

Lemma avg_represents (a b : Z) :
  Double.represents (avg a b) (inject_Z (Int32.add a b) * (1 # 2)).
Proof.
  unfold avg. apply half_of_int_represents.
  pose proof (in_range_abs _ (wrap_in_range (a + b))) as H.
  unfold Int32.add. lia.
Qed.

(** C1: for all [a] and [b], [avg a b] is the binary64 product with [0.5] of
    the conversion of the [int] sum [a + b]; the sum is taken in [int]
    before the conversion (it is the integer of the [int32_t] range congruent
    to [a + b] modulo [2^32]), the conversion is exact, [0.5] is one half, and
    so the result is exactly half the [int] sum. *)
Theorem avg_is_half_of_int_sum (a b : Z) :
  avg a b = Double.mul (Double.of_int (Int32.add a b)) Double.half
  /\ Int32.in_range (Int32.add a b)
  /\ (Int32.add a b - (a + b)) mod Int32.modulus = 0
  /\ Double.represents (Double.of_int (Int32.add a b))
       (inject_Z (Int32.add a b))
  /\ Double.represents Double.half (1 # 2)
  /\ Double.represents (avg a b) (inject_Z (Int32.add a b) * (1 # 2)).
Proof.
  pose proof (wrap_in_range (a + b)) as Hr.
  pose proof (in_range_abs _ Hr) as Habs.
  split; [reflexivity|].
  split; [exact Hr|].
  split.
  { unfold Int32.add, Int32.wrap, Int32.modulus, Int32.min_signed.
    rewrite (Z.mod_eq (a + b - - 2 ^ 31)) by lia.
    replace (a + b - - 2 ^ 31
             - 2 ^ 32 * ((a + b - - 2 ^ 31) / 2 ^ 32) + - 2 ^ 31 - (a + b))
      with (- ((a + b - - 2 ^ 31) / 2 ^ 32) * 2 ^ 32) by ring.
    apply Z.mod_mul. lia. }
  split.
  { apply of_int_represents. unfold Int32.add. lia. }
  split; [reflexivity|].
  apply avg_represents.
Qed.

(** C2 (as stated, refuted): at [a = b = 2147483647] the [int] sum wraps to
    [-2] and [avg] returns [-1.0], while the floating-point sum of the two
    conversions, multiplied by [0.5], is [2147483647.0]. *)
Lemma avg_float_sum_counterexample :
  Int32.in_range 2147483647
  /\ avg 2147483647 2147483647
     <> spec_avg_float_sum 2147483647 2147483647.
Proof.
  split.
  - unfold Int32.in_range, Int32.min_signed, Int32.max_signed. lia.
  - vm_compute. discriminate.
Qed.

(** C2 (amended): for [int32_t] inputs [a] and [b], [avg a b] equals the
    floating-point sum of the conversions of [a] and [b] multiplied by [0.5]
    exactly when the sum [a + b] is in the [int32_t] range: the code adds in
    [int], before the conversion. *)
Theorem avg_float_sum_iff_no_overflow (a b : Z) :
  Int32.in_range a -> Int32.in_range b ->
  (avg a b = spec_avg_float_sum a b <-> Int32.in_range (a + b)).
Proof.
  intros Ha Hb.
  pose proof (in_range_abs _ Ha) as Ha'.
  pose proof (in_range_abs _ Hb) as Hb'.
  assert (Hsum : spec_avg_float_sum a b
                 = Double.mul (Double.of_int (a + b)) Double.half)
    by (unfold spec_avg_float_sum; now rewrite add_of_int).
  split.
  - intros Heq. apply wrap_fixed.
    pose proof (avg_represents a b) as H1.
    assert (H2 : Double.represents (avg a b) (inject_Z (a + b) * (1 # 2))).
    { rewrite Heq, Hsum. apply half_of_int_represents. lia. }
    pose proof (represents_unique _ _ _ H1 H2) as Hq.
    unfold Int32.add in Hq. unfold Qeq in Hq. cbn in Hq. lia.
  - intros Hab. rewrite Hsum. unfold avg, Int32.add.
    now rewrite wrap_id.
Qed.

(** The amended C2 at [a = 1], [b = 2]. *)
Lemma avg_float_sum_iff_no_overflow_witness :
  (Int32.in_range 1 /\ Int32.in_range 2)
  /\ (avg 1 2 = spec_avg_float_sum 1 2 <-> Int32.in_range (1 + 2)).
Proof.
  assert (H1 : Int32.in_range 1)
    by (unfold Int32.in_range, Int32.min_signed, Int32.max_signed; lia).
  assert (H2 : Int32.in_range 2)
    by (unfold Int32.in_range, Int32.min_signed, Int32.max_signed; lia).
  split.
  - auto.
  - apply (avg_float_sum_iff_no_overflow 1 2 H1 H2).
Defined.

(** C3: for [int32_t] inputs [a] and [b] whose sum is in the [int32_t]
    range, the [int] sum is [a + b], its conversion to [double] is exactly
    [a + b], and [avg a b] is exactly the rational [(a + b) / 2]. *)
Theorem avg_exact_without_overflow (a b : Z) :
  Int32.in_range a -> Int32.in_range b -> Int32.in_range (a + b) ->
  Int32.add a b = a + b
  /\ Double.represents (Double.of_int (a + b)) (inject_Z (a + b))
  /\ Double.represents (avg a b) ((a + b) # 2).
Proof.
  intros Ha Hb Hab.
  assert (Hadd : Int32.add a b = a + b) by (now apply wrap_id).
  pose proof (in_range_abs _ Hab) as Habs.
  repeat split.
  - assumption.
  - apply of_int_represents. lia.
  - apply half_sum_Q. rewrite <- Hadd. apply avg_represents.
Qed.

(** C3 at [a = 7], [b = -4]. *)
Lemma avg_exact_without_overflow_witness :
  (Int32.in_range 7 /\ Int32.in_range (-4) /\ Int32.in_range (7 + -4))
  /\ Int32.add 7 (-4) = 7 + -4
  /\ Double.represents (Double.of_int (7 + -4)) (inject_Z (7 + -4))
  /\ Double.represents (avg 7 (-4)) ((7 + -4) # 2).
Proof.
  assert (H1 : Int32.in_range 7)
    by (unfold Int32.in_range, Int32.min_signed, Int32.max_signed; lia).
  assert (H2 : Int32.in_range (-4))
    by (unfold Int32.in_range, Int32.min_signed, Int32.max_signed; lia).
  assert (H3 : Int32.in_range (7 + -4))
    by (unfold Int32.in_range, Int32.min_signed, Int32.max_signed; lia).
  split.
  - auto.
  - apply (avg_exact_without_overflow 7 (-4) H1 H2 H3).
Defined.

(** C4: for all [a] and [b] and all values of the two handles, the JNI-named
    export returns what [avg a b] returns; in particular two calls with
    different handles return the same result. *)
Theorem Java_avg_is_avg (env obj env' obj' : ptr) (a b : Z) :
  Java_deltix_NativeUtilsSample_00024Imports_avg env obj a b = avg a b
  /\ Java_deltix_NativeUtilsSample_00024Imports_avg env obj a b
     = Java_deltix_NativeUtilsSample_00024Imports_avg env' obj' a b.
Proof.
  split; reflexivity.
Qed.

(** C5: [ptrSize] returns [sizeof(intptr_t)] of the build target, which is 8
    on a 64-bit target and 4 on a 32-bit one, and so always 4 or 8. *)
Theorem ptrSize_is_pointer_width (t : target) :
  ptrSize t = sizeof_intptr_t t
  /\ ptrSize t = (match target_width t with Bits64 => 8 | Bits32 => 4 end)
  /\ (ptrSize t = 4 \/ ptrSize t = 8).
Proof.
  destruct t as [o [|]]; cbn; auto.
Qed.

(** C6: for [int32_t] inputs [a] and [b] whose sum is outside the [int32_t]
    range, [avg] still returns a number (neither an infinity nor a NaN, and
    a call of [avg] returns a value on every target): the product with [0.5]
    of the conversion of the sum taken modulo [2^32] into the [int32_t]
    range, which is [a + b - 2^32] above the range and [a + b + 2^32] below
    it. *)
Theorem avg_overflow_wraps (a b : Z) :
  Int32.in_range a -> Int32.in_range b -> ~ Int32.in_range (a + b) ->
  Int32.add a b
  = (if Int32.max_signed <? a + b
     then a + b - Int32.modulus
     else a + b + Int32.modulus)
  /\ avg a b = Double.mul (Double.of_int (Int32.add a b)) Double.half
  /\ Double.is_finite (avg a b) = true
  /\ Double.represents (avg a b) (inject_Z (Int32.add a b) * (1 # 2))
  /\ (forall t : target,
         call_result t (Call_avg a b) = Some (Vdouble (avg a b))).
Proof.
  intros Ha Hb Hab.
  split.
  { unfold Int32.in_range, Int32.max_signed, Int32.min_signed in *.
    unfold Int32.add, Int32.wrap, Int32.modulus, Int32.min_signed,
      Int32.max_signed.
    destruct (Z.ltb_spec (2 ^ 31 - 1) (a + b)) as [Hhi|Hlo].
    - replace (a + b - - 2 ^ 31) with (a + b - 2 ^ 31 + 1 * 2 ^ 32) by ring.
      rewrite Z.mod_add, Z.mod_small by lia. lia.
    - replace (a + b - - 2 ^ 31)
        with (a + b + 2 ^ 31 + 2 ^ 32 + (-1) * 2 ^ 32) by ring.
      rewrite Z.mod_add, Z.mod_small by lia. lia. }
  split; [reflexivity|].
  split; [apply (represents_finite _ _ (avg_represents a b))|].
  split; [apply avg_represents|].
  reflexivity.
Qed.

(** C6 at [a = 2147483647], [b = 1]. *)
Lemma avg_overflow_wraps_witness :
  (Int32.in_range 2147483647 /\ Int32.in_range 1
   /\ ~ Int32.in_range (2147483647 + 1))
  /\ Int32.add 2147483647 1
     = (if Int32.max_signed <? 2147483647 + 1
        then 2147483647 + 1 - Int32.modulus
        else 2147483647 + 1 + Int32.modulus)
  /\ avg 2147483647 1
     = Double.mul (Double.of_int (Int32.add 2147483647 1)) Double.half
  /\ Double.is_finite (avg 2147483647 1) = true
  /\ Double.represents (avg 2147483647 1)
       (inject_Z (Int32.add 2147483647 1) * (1 # 2))
  /\ (forall t : target,
         call_result t (Call_avg 2147483647 1)
         = Some (Vdouble (avg 2147483647 1))).
Proof.
  assert (Hmax : Int32.in_range 2147483647)
    by (unfold Int32.in_range, Int32.min_signed, Int32.max_signed; lia).
  assert (Hone : Int32.in_range 1)
    by (unfold Int32.in_range, Int32.min_signed, Int32.max_signed; lia).
  assert (Hover : ~ Int32.in_range (2147483647 + 1))
    by (unfold Int32.in_range, Int32.min_signed, Int32.max_signed; lia).
  split.
  - auto.
  - apply (avg_overflow_wraps 2147483647 1 Hmax Hone Hover).
Defined.

(** C7: [avg 2 4] is the double [3.0], [avg (-1) 1] is the double [0.0] and
    [avg 1 2] is the double [1.5]. *)
Theorem avg_examples :
  avg 2 4 = Prim2SF 3%float
  /\ avg (-1) 1 = Prim2SF 0%float
  /\ avg 1 2 = Prim2SF 1.5%float
  /\ Double.represents (avg 2 4) (3 # 1)
  /\ Double.represents (avg (-1) 1) 0
  /\ Double.represents (avg 1 2) (3 # 2).
Proof.
  repeat split; vm_compute; reflexivity.
Qed.

(** C8: [DllMain] returns 1, which is true, for all values of its three
    arguments; a call of it exists on the Windows targets only and leaves
    the state of the process as it was. *)
Theorem DllMain_always_true (world : Type) (t : target)
  (instance : ptr) (reason : DWORD) (reserved : ptr) (w : world) :
  DllMain instance reason reserved = 1
  /\ BOOL_true (DllMain instance reason reserved) = true
  /\ invoke t (Call_DllMain instance reason reserved) w
     = ((if defined_WIN32 t then Some (Vint 1) else None), w)
  /\ (In "DllMain"%string (exports t) <-> target_os t = Windows).
Proof.
  split; [reflexivity|].
  split; [reflexivity|].
  split; [reflexivity|].
  destruct t as [[|] wd]; cbn; split; intros H; auto;
    repeat (destruct H as [H|H]; try discriminate H); try discriminate;
    contradiction.
Qed.

(** C10: [avg] is commutative. *)
Theorem avg_comm (a b : Z) : avg a b = avg b a.
Proof.
  unfold avg, Int32.add. now rewrite Z.add_comm.
Qed.

(** * The results of [avg] as ordered values

    Every result of [avg] is half an integer; the lemmas below give its
    shape and how the comparison of doubles orders such values. *)

Section HalfIntegers.

(** The shape of the product with [0.5] of a converted integer. *)
Lemma half_of_int_pos (n : positive) :
  Zpos (digits2_pos n) <= 53 ->
  Double.mul (Double.of_int (Zpos n)) Double.half
  = S754_finite false
      (Nat.iter (Z.to_nat (53 - Zpos (digits2_pos n))) xO n)
      (Zpos (digits2_pos n) - 54).
Proof.
  intros Hd. rewrite of_int_pos by assumption. now apply mul_half_normal.
Qed.

Lemma half_of_int_neg (n : positive) :
  Zpos (digits2_pos n) <= 53 ->
  Double.mul (Double.of_int (Zneg n)) Double.half
  = S754_finite true
      (Nat.iter (Z.to_nat (53 - Zpos (digits2_pos n))) xO n)
      (Zpos (digits2_pos n) - 54).
Proof.
  intros Hd. rewrite of_int_neg by assumption. now apply mul_half_normal.
Qed.

Lemma digits_53 (n : positive) :
  Zpos n < 2 ^ 53 -> Zpos (digits2_pos n) <= 53.
Proof. intros H. apply digits2_pos_le; lia. Qed.

(** Mantissas of 53 bits under exponents that follow the bit lengths are
    ordered as the integers they come from. *)
Lemma compare_mantissas (n1 n2 : positive) :
  Zpos (digits2_pos n1) <= 53 -> Zpos (digits2_pos n2) <= 53 ->
  match Zpos (digits2_pos n1) - 54 ?= Zpos (digits2_pos n2) - 54 with
  | Lt => Lt
  | Gt => Gt
  | Eq =>
      Pos.compare_cont Eq
        (Nat.iter (Z.to_nat (53 - Zpos (digits2_pos n1))) xO n1)
        (Nat.iter (Z.to_nat (53 - Zpos (digits2_pos n2))) xO n2)
  end = (Zpos n1 ?= Zpos n2).
Proof.
  intros H1 H2.
  pose proof (digits2_pos_bounds n1) as B1.
  pose proof (digits2_pos_bounds n2) as B2.
  destruct (Z.compare_spec (Zpos (digits2_pos n1) - 54)
              (Zpos (digits2_pos n2) - 54)) as [He|He|He].
  - assert (Hd : Zpos (digits2_pos n1) = Zpos (digits2_pos n2)) by lia.
    change (Pos.compare_cont Eq ?x ?y) with (Zpos x ?= Zpos y).
    rewrite !pshl_Z, Hd.
    symmetry. apply Zmult_compare_compat_r.
    apply Z.lt_gt, Z.pow_pos_nonneg; lia.
  - symmetry. apply Z.compare_lt_iff.
    assert (2 ^ Zpos (digits2_pos n1) <= 2 ^ (Zpos (digits2_pos n2) - 1))
      by (apply Z.pow_le_mono_r; lia).
    lia.
  - symmetry. apply Z.compare_gt_iff.
    assert (2 ^ Zpos (digits2_pos n2) <= 2 ^ (Zpos (digits2_pos n1) - 1))
      by (apply Z.pow_le_mono_r; lia).
    lia.
Qed.

(** The comparison of doubles orders halves of integers as the integers. *)
Lemma compare_half_of_int (x y : Z) :
  Z.abs x < 2 ^ 53 -> Z.abs y < 2 ^ 53 ->
  SFcompare (Double.mul (Double.of_int x) Double.half)
    (Double.mul (Double.of_int y) Double.half)
  = Some (x ?= y).
Proof.
  intros Hx Hy.
  destruct x as [|n1|n1]; destruct y as [|n2|n2];
    rewrite ?half_of_int_pos, ?half_of_int_neg by (apply digits_53; lia);
    try reflexivity.
  - cbn [SFcompare]. f_equal. apply compare_mantissas; apply digits_53; lia.
  - cbn [SFcompare]. f_equal.
    change (Zneg n1 ?= Zneg n2) with (CompOpp (Zpos n1 ?= Zpos n2)).
    rewrite <- compare_mantissas by (apply digits_53; lia).
    now destruct (Zpos (digits2_pos n1) - 54 ?= Zpos (digits2_pos n2) - 54).
Qed.

(** An integer is the half of its double. *)
Lemma half_of_twice (k : Z) :
  Z.abs k < 2 ^ 52 ->
  Double.mul (Double.of_int (2 * k)) Double.half = Double.of_int k.
Proof.
  intros Hk. destruct k as [|n|n].
  - reflexivity.
  - assert (Hd : Zpos (digits2_pos n) <= 52) by (apply digits2_pos_le; lia).
    change (2 * Zpos n) with (Zpos n~0).
    rewrite half_of_int_pos, of_int_pos
      by (cbn [digits2_pos]; rewrite ?Pos2Z.inj_succ; lia).
    unfold Double.normal, Double.prec. cbn [digits2_pos].
    rewrite Pos2Z.inj_succ.
    replace (Z.to_nat (53 - Zpos (digits2_pos n)))
      with (S (Z.to_nat (53 - Z.succ (Zpos (digits2_pos n))))) by lia.
    rewrite Nat.iter_succ_r. f_equal. lia.
  - assert (Hd : Zpos (digits2_pos n) <= 52) by (apply digits2_pos_le; lia).
    change (2 * Zneg n) with (Zneg n~0).
    rewrite half_of_int_neg, of_int_neg
      by (cbn [digits2_pos]; rewrite ?Pos2Z.inj_succ; lia).
    unfold Double.normal, Double.prec. cbn [digits2_pos].
    rewrite Pos2Z.inj_succ.
    replace (Z.to_nat (53 - Zpos (digits2_pos n)))
      with (S (Z.to_nat (53 - Z.succ (Zpos (digits2_pos n))))) by lia.
    rewrite Nat.iter_succ_r. f_equal. lia.
Qed.

End HalfIntegers.

(** * Further properties of [avg] *)

Section AvgOrder.

Lemma add_abs (a b : Z) : Z.abs (Int32.add a b) < 2 ^ 52.
Proof.
  pose proof (in_range_abs _ (wrap_in_range (a + b))).
  unfold Int32.add. lia.
Qed.

(** The three ways the [int] sum of two [int32_t] values comes out. *)
Lemma add_cases (a b : Z) :
  Int32.in_range a -> Int32.in_range b ->
  (Int32.in_range (a + b) /\ Int32.add a b = a + b)
  \/ (Int32.max_signed < a + b /\ Int32.add a b = a + b - 2 ^ 32)
  \/ (a + b < Int32.min_signed /\ Int32.add a b = a + b + 2 ^ 32).
Proof.
  unfold Int32.in_range, Int32.add, Int32.wrap, Int32.max_signed,
    Int32.min_signed, Int32.modulus.
  intros Ha Hb.
  destruct (Z_lt_le_dec (2 ^ 31 - 1) (a + b)) as [Hhi|Hhi];
    [|destruct (Z_lt_le_dec (a + b) (- 2 ^ 31)) as [Hlo|Hlo]].
  - right; left. split; [assumption|].
    replace (a + b - - 2 ^ 31) with (a + b - 2 ^ 31 + 1 * 2 ^ 32) by ring.
    rewrite Z.mod_add, Z.mod_small by lia. lia.
  - right; right. split; [assumption|].
    replace (a + b - - 2 ^ 31)
      with (a + b + 2 ^ 31 + 2 ^ 32 + (-1) * 2 ^ 32) by ring.
    rewrite Z.mod_add, Z.mod_small by lia. lia.
  - left. split; [lia|]. rewrite Z.mod_small by lia. lia.
Qed.

Lemma compare_avg_avg (a b c d : Z) :
  SFcompare (avg a b) (avg c d) = Some (Int32.add a b ?= Int32.add c d).
Proof.
  unfold avg. apply compare_half_of_int.
  - pose proof (add_abs a b). lia.
  - pose proof (add_abs c d). lia.
Qed.

Lemma compare_avg_int (a b k : Z) :
  Z.abs k < 2 ^ 52 ->
  SFcompare (avg a b) (Double.of_int k) = Some (Int32.add a b ?= 2 * k).
Proof.
  intros Hk. rewrite <- (half_of_twice k) by assumption.
  unfold avg. apply compare_half_of_int.
  - pose proof (add_abs a b). lia.
  - lia.
Qed.

Lemma compare_int_avg (a b k : Z) :
  Z.abs k < 2 ^ 52 ->
  SFcompare (Double.of_int k) (avg a b) = Some (2 * k ?= Int32.add a b).
Proof.
  intros Hk. rewrite <- (half_of_twice k) by assumption.
  unfold avg. apply compare_half_of_int.
  - lia.
  - pose proof (add_abs a b). lia.
Qed.

Lemma leb_of_compare (x y : Double.double) (u v : Z) :
  SFcompare x y = Some (u ?= v) -> u <= v -> SFleb x y = true.
Proof.
  intros Hc Hle. unfold SFleb. rewrite Hc.
  destruct (Z.compare_spec u v); [reflexivity|reflexivity|lia].
Qed.

Lemma ltb_of_compare (x y : Double.double) (u v : Z) :
  SFcompare x y = Some (u ?= v) -> u < v -> SFltb x y = true.
Proof.
  intros Hc Hlt. unfold SFltb. rewrite Hc.
  destruct (Z.compare_spec u v); [lia|reflexivity|lia].
Qed.

Lemma compare_some_eq (u v w : Z) :
  Some (w ?= w) = Some (u ?= v) -> u = v.
Proof.
  rewrite Z.compare_refl. intros H.
  assert (He : Eq = (u ?= v)) by congruence.
  symmetry in He. now apply Z.compare_eq.
Qed.

Lemma in_range_abs52 (z : Z) : Int32.in_range z -> Z.abs z < 2 ^ 52.
Proof. intros H. pose proof (in_range_abs z H). lia. Qed.

End AvgOrder.

(** X1: the comparison of doubles orders two results of [avg] as the two
    [int] sums are ordered; so two results are equal exactly when the sums
    are. *)
Theorem avg_compare (a b c d : Z) :
  SFcompare (avg a b) (avg c d) = Some (Int32.add a b ?= Int32.add c d)
  /\ (avg a b = avg c d <-> Int32.add a b = Int32.add c d).
Proof.
  split; [apply compare_avg_avg|].
  split.
  - intros Heq. pose proof (compare_avg_avg a b c d) as H1.
    rewrite <- Heq, compare_avg_avg in H1.
    now apply compare_some_eq in H1.
  - intros Heq. unfold avg. now rewrite Heq.
Qed.

(** X2: when the sum of two [int32_t] values does not overflow, [avg] lies
    between the smaller and the larger of them. *)
Theorem avg_between_inputs (a b : Z) :
  Int32.in_range a -> Int32.in_range b -> Int32.in_range (a + b) ->
  SFleb (Double.of_int (Z.min a b)) (avg a b) = true
  /\ SFleb (avg a b) (Double.of_int (Z.max a b)) = true.
Proof.
  intros Ha Hb Hab.
  pose proof (in_range_abs52 _ Ha). pose proof (in_range_abs52 _ Hb).
  assert (Hadd : Int32.add a b = a + b) by (now apply wrap_id).
  split.
  - apply (leb_of_compare _ _ _ _
             (compare_int_avg a b (Z.min a b) ltac:(lia))). lia.
  - apply (leb_of_compare _ _ _ _
             (compare_avg_int a b (Z.max a b) ltac:(lia))). lia.
Qed.

Lemma avg_between_inputs_witness :
  (Int32.in_range 7 /\ Int32.in_range (-4) /\ Int32.in_range (7 + -4))
  /\ SFleb (Double.of_int (Z.min 7 (-4))) (avg 7 (-4)) = true
  /\ SFleb (avg 7 (-4)) (Double.of_int (Z.max 7 (-4))) = true.
Proof.
  assert (H1 : Int32.in_range 7)
    by (unfold Int32.in_range, Int32.min_signed, Int32.max_signed; lia).
  assert (H2 : Int32.in_range (-4))
    by (unfold Int32.in_range, Int32.min_signed, Int32.max_signed; lia).
  assert (H3 : Int32.in_range (7 + -4))
    by (unfold Int32.in_range, Int32.min_signed, Int32.max_signed; lia).
  split.
  - auto.
  - apply (avg_between_inputs 7 (-4) H1 H2 H3).
Defined.

(** X3: when the sum overflows, [avg] is not between its inputs: above the
    range the result is negative and below both inputs, below the range it
    is not negative and above both inputs. *)
Theorem avg_overflow_outside_inputs (a b : Z) :
  Int32.in_range a -> Int32.in_range b -> ~ Int32.in_range (a + b) ->
  if Int32.max_signed <? a + b
  then SFltb (avg a b) (Double.of_int (Z.min a b)) = true
       /\ SFltb (avg a b) (Double.of_int 0) = true
  else SFltb (Double.of_int (Z.max a b)) (avg a b) = true
       /\ SFleb (Double.of_int 0) (avg a b) = true.
Proof.
  intros Ha Hb Hab.
  pose proof (in_range_abs52 _ Ha). pose proof (in_range_abs52 _ Hb).
  destruct (add_cases a b Ha Hb) as [[Hin _]|[[Hhi Hadd]|[Hlo Hadd]]];
    [contradiction| |];
    unfold Int32.in_range, Int32.max_signed, Int32.min_signed in *.
  - replace (2 ^ 31 - 1 <? a + b) with true
      by (symmetry; apply Z.ltb_lt; lia).
    split.
    + apply (ltb_of_compare _ _ _ _
               (compare_avg_int a b (Z.min a b) ltac:(lia))). lia.
    + apply (ltb_of_compare _ _ _ _ (compare_avg_int a b 0 ltac:(lia))). lia.
  - replace (2 ^ 31 - 1 <? a + b) with false
      by (symmetry; apply Z.ltb_ge; lia).
    split.
    + apply (ltb_of_compare _ _ _ _
               (compare_int_avg a b (Z.max a b) ltac:(lia))). lia.
    + apply (leb_of_compare _ _ _ _ (compare_int_avg a b 0 ltac:(lia))). lia.
Qed.

Lemma avg_overflow_outside_inputs_witness :
  (Int32.in_range 2147483647 /\ Int32.in_range 1
   /\ ~ Int32.in_range (2147483647 + 1))
  /\ if Int32.max_signed <? 2147483647 + 1
     then SFltb (avg 2147483647 1) (Double.of_int (Z.min 2147483647 1)) = true
          /\ SFltb (avg 2147483647 1) (Double.of_int 0) = true
     else SFltb (Double.of_int (Z.max 2147483647 1)) (avg 2147483647 1) = true
          /\ SFleb (Double.of_int 0) (avg 2147483647 1) = true.
Proof.
  assert (Hmax : Int32.in_range 2147483647)
    by (unfold Int32.in_range, Int32.min_signed, Int32.max_signed; lia).
  assert (Hone : Int32.in_range 1)
    by (unfold Int32.in_range, Int32.min_signed, Int32.max_signed; lia).
  assert (Hover : ~ Int32.in_range (2147483647 + 1))
    by (unfold Int32.in_range, Int32.min_signed, Int32.max_signed; lia).
  split.
  - auto.
  - apply (avg_overflow_outside_inputs 2147483647 1 Hmax Hone Hover).
Defined.

(** X4: every result of [avg] is at least [-2^30] and below [2^30]. *)
Theorem avg_bounded (a b : Z) :
  SFleb (Double.of_int (- 2 ^ 30)) (avg a b) = true
  /\ SFltb (avg a b) (Double.of_int (2 ^ 30)) = true.
Proof.
  pose proof (wrap_in_range (a + b)) as Hr.
  unfold Int32.in_range, Int32.max_signed, Int32.min_signed in Hr.
  change (Int32.wrap (a + b)) with (Int32.add a b) in Hr.
  split.
  - apply (leb_of_compare _ _ _ _
             (compare_int_avg a b (- 2 ^ 30) ltac:(lia))). lia.
  - apply (ltb_of_compare _ _ _ _
             (compare_avg_int a b (2 ^ 30) ltac:(lia))). lia.
Qed.

(** X5: without overflow [avg] is monotone in each argument, strictly. *)
Theorem avg_monotone (a a' b : Z) :
  Int32.in_range (a + b) -> Int32.in_range (a' + b) -> a <= a' ->
  SFleb (avg a b) (avg a' b) = true
  /\ SFleb (avg b a) (avg b a') = true
  /\ SFltb (avg a b) (avg a' b) = (a <? a').
Proof.
  intros Hab Hab' Hle.
  assert (H1 : Int32.add a b = a + b) by (now apply wrap_id).
  assert (H2 : Int32.add a' b = a' + b) by (now apply wrap_id).
  assert (H3 : Int32.add b a = a + b)
    by (unfold Int32.add; rewrite Z.add_comm; now apply wrap_id).
  assert (H4 : Int32.add b a' = a' + b)
    by (unfold Int32.add; rewrite Z.add_comm; now apply wrap_id).
  split; [|split].
  - apply (leb_of_compare _ _ _ _ (compare_avg_avg a b a' b)). lia.
  - apply (leb_of_compare _ _ _ _ (compare_avg_avg b a b a')). lia.
  - unfold SFltb. rewrite compare_avg_avg, H1, H2.
    destruct (Z.compare_spec (a + b) (a' + b));
      symmetry; (apply Z.ltb_lt || apply Z.ltb_ge); lia.
Qed.

Lemma avg_monotone_witness :
  (Int32.in_range (3 + 10) /\ Int32.in_range (8 + 10) /\ 3 <= 8)
  /\ SFleb (avg 3 10) (avg 8 10) = true
  /\ SFleb (avg 10 3) (avg 10 8) = true
  /\ SFltb (avg 3 10) (avg 8 10) = (3 <? 8).
Proof.
  assert (H1 : Int32.in_range (3 + 10))
    by (unfold Int32.in_range, Int32.min_signed, Int32.max_signed; lia).
  assert (H2 : Int32.in_range (8 + 10))
    by (unfold Int32.in_range, Int32.min_signed, Int32.max_signed; lia).
  assert (H3 : 3 <= 8) by lia.
  split.
  - auto.
  - apply (avg_monotone 3 8 10 H1 H2 H3).
Defined.

(** X6: when the [int] sum is even, [avg] is the conversion of half the sum,
    an integer; when it is odd, [avg] lies strictly between the conversions
    of the two integers next to half the sum. *)
Theorem avg_parity (a b : Z) :
  if Z.even (Int32.add a b)
  then avg a b = Double.of_int (Int32.add a b / 2)
  else SFltb (Double.of_int (Int32.add a b / 2)) (avg a b) = true
       /\ SFltb (avg a b) (Double.of_int (Int32.add a b / 2 + 1)) = true.
Proof.
  pose proof (add_abs a b) as Hs.
  pose proof (Z.div_mod (Int32.add a b) 2 ltac:(lia)) as Hdiv.
  rewrite Zmod_even in Hdiv.
  set (k := Int32.add a b / 2) in *.
  destruct (Z.even (Int32.add a b)).
  - unfold avg. rewrite Hdiv, Z.add_0_r. apply half_of_twice. lia.
  - split.
    + apply (ltb_of_compare _ _ _ _ (compare_int_avg a b k ltac:(lia))). lia.
    + apply (ltb_of_compare _ _ _ _
               (compare_avg_int a b (k + 1) ltac:(lia))). lia.
Qed.

(** X7: for an [int32_t] value [a], [avg a a] is the conversion of [a]
    exactly when [-2^30 <= a < 2^30]; outside, the doubled value overflows. *)
Theorem avg_self (a : Z) :
  Int32.in_range a ->
  (avg a a = Double.of_int a <-> - 2 ^ 30 <= a < 2 ^ 30).
Proof.
  intros Ha. pose proof (in_range_abs52 _ Ha) as Habs.
  split.
  - intros Heq.
    pose proof (compare_avg_int a a a Habs) as Hc.
    rewrite Heq, <- (half_of_twice a), compare_half_of_int in Hc by lia.
    apply compare_some_eq in Hc.
    pose proof (wrap_in_range (a + a)) as Hr. unfold Int32.add in Hc.
    unfold Int32.in_range, Int32.max_signed, Int32.min_signed in Hr. lia.
  - intros Hr. unfold avg, Int32.add.
    rewrite wrap_id
      by (unfold Int32.in_range, Int32.max_signed, Int32.min_signed; lia).
    replace (a + a) with (2 * a) by ring. apply half_of_twice. lia.
Qed.

Lemma avg_self_witness :
  Int32.in_range 5
  /\ (avg 5 5 = Double.of_int 5 <-> - 2 ^ 30 <= 5 < 2 ^ 30).
Proof.
  assert (H : Int32.in_range 5)
    by (unfold Int32.in_range, Int32.min_signed, Int32.max_signed; lia).
  split.
  - exact H.
  - apply (avg_self 5 H).
Defined.

(** X8: for [int32_t] inputs, [avg] returns zero exactly when the two
    inputs are opposite or both are the least [int32_t] value, whose sum
    wraps to zero. *)
Theorem avg_zero_iff (a b : Z) :
  Int32.in_range a -> Int32.in_range b ->
  (avg a b = S754_zero false
   <-> a + b = 0 \/ (a = Int32.min_signed /\ b = Int32.min_signed)).
Proof.
  intros Ha Hb.
  assert (Hz : avg a b = S754_zero false <-> Int32.add a b = 0).
  { split.
    - intros Heq. pose proof (compare_avg_int a b 0 ltac:(lia)) as Hc.
      rewrite Heq in Hc. change (Double.of_int 0) with (S754_zero false) in Hc.
      change (SFcompare (S754_zero false) (S754_zero false))
        with (Some (0 ?= 0)) in Hc.
      now apply compare_some_eq in Hc.
    - intros Heq. unfold avg. now rewrite Heq. }
  rewrite Hz.
  destruct (add_cases a b Ha Hb) as [[Hin Hadd]|[[Hhi Hadd]|[Hlo Hadd]]];
    rewrite Hadd;
    unfold Int32.in_range, Int32.max_signed, Int32.min_signed in *; lia.
Qed.

Lemma avg_zero_iff_witness :
  (Int32.in_range (-2147483648) /\ Int32.in_range (-2147483648))
  /\ (avg (-2147483648) (-2147483648) = S754_zero false
      <-> -2147483648 + -2147483648 = 0
          \/ (-2147483648 = Int32.min_signed
              /\ -2147483648 = Int32.min_signed)).
Proof.
  assert (H : Int32.in_range (-2147483648))
    by (unfold Int32.in_range, Int32.min_signed, Int32.max_signed; lia).
  split.
  - auto.
  - apply (avg_zero_iff (-2147483648) (-2147483648) H H).
Defined.

Section AvgShape.

(** A result of [avg] is positive zero or has a mantissa of 53 bits. *)
Lemma avg_shape (a b : Z) :
  avg a b = S754_zero false
  \/ exists (s : bool) (m : positive) (e : Z),
       avg a b = S754_finite s m e
       /\ Zpos (digits2_pos m) = 53 /\ -53 <= e <= -22.
Proof.
  pose proof (in_range_abs _ (wrap_in_range (a + b))) as Hs.
  change (Int32.wrap (a + b)) with (Int32.add a b) in Hs.
  unfold avg. destruct (Int32.add a b) as [|n|n].
  - left. reflexivity.
  - right.
    assert (Hd : Zpos (digits2_pos n) <= 32) by (apply digits2_pos_le; lia).
    rewrite half_of_int_pos by lia.
    eexists _, _, _. split; [reflexivity|].
    rewrite pshl_digits. lia.
  - right.
    assert (Hd : Zpos (digits2_pos n) <= 32) by (apply digits2_pos_le; lia).
    rewrite half_of_int_neg by lia.
    eexists _, _, _. split; [reflexivity|].
    rewrite pshl_digits. lia.
Qed.

(** Adding the half of an integer to itself gives the integer back. *)
Lemma add_half_half (z : Z) :
  Z.abs z < 2 ^ 53 ->
  Double.add (Double.mul (Double.of_int z) Double.half)
    (Double.mul (Double.of_int z) Double.half)
  = Double.of_int z.
Proof.
  intros Hz.
  assert (Hgen : forall (s : bool) (n : positive),
             Zpos (digits2_pos n) <= 53 ->
             Double.add
               (S754_finite s
                  (Nat.iter (Z.to_nat (53 - Zpos (digits2_pos n))) xO n)
                  (Zpos (digits2_pos n) - 54))
               (S754_finite s
                  (Nat.iter (Z.to_nat (53 - Zpos (digits2_pos n))) xO n)
                  (Zpos (digits2_pos n) - 54))
             = Double.of_int (cond_Zopp s (Zpos n))).
  { intros s n Hd. unfold Double.add, SFadd, shl_align.
    rewrite Z.min_id, Z.sub_diag. cbn [fst].
    set (r := Z.to_nat (53 - Zpos (digits2_pos n))).
    replace (cond_Zopp s (Zpos (Nat.iter r xO n))
             + cond_Zopp s (Zpos (Nat.iter r xO n)))
      with (cond_Zopp s (Zpos n) * 2 ^ Z.of_nat (S r))
      by (rewrite Nat2Z.inj_succ, Z.pow_succ_r, pshl_Z by lia;
          destruct s; cbn [cond_Zopp]; ring).
    replace (Zpos (digits2_pos n) - 54) with (- Z.of_nat (S r)) by lia.
    apply normalize_scaled.
    pose proof (digits2_pos_bounds n) as [_ Hn].
    assert (2 ^ Zpos (digits2_pos n) <= 2 ^ 53)
      by (apply Z.pow_le_mono_r; lia).
    destruct s; cbn [cond_Zopp]; lia. }
  destruct z as [|n|n].
  - reflexivity.
  - rewrite half_of_int_pos by (apply digits_53; lia).
    apply (Hgen false). apply digits_53; lia.
  - rewrite half_of_int_neg by (apply digits_53; lia).
    apply (Hgen true). apply digits_53; lia.
Qed.

End AvgShape.

(** X9: [avg] never returns a NaN, an infinity, a negative zero or a
    subnormal number: every result is positive zero or a normal number, and
    is a well-formed binary64 value. *)
Theorem avg_class (a b : Z) :
  In (SFclassify Double.prec (avg a b))
    [FloatClass.PZero; FloatClass.PNormal; FloatClass.NNormal]
  /\ valid_binary Double.prec Double.emax (avg a b) = true.
Proof.
  destruct (avg_shape a b) as [Hz|[s [m [e [Hf [Hm He]]]]]].
  - rewrite Hz. split; [left; reflexivity|reflexivity].
  - rewrite Hf. split.
    + cbn [SFclassify]. rewrite Hm. destruct s; cbn; auto.
    + cbn [valid_binary]. unfold bounded, canonical_mantissa.
      rewrite Hm, fexp_normal by lia.
      apply andb_true_intro. split.
      * apply Z.eqb_eq. lia.
      * apply Z.leb_le. unfold Double.emax, Double.prec. lia.
Qed.

(** X10: adding a result of [avg] to itself gives the conversion of the
    [int] sum: the sum (as the code computed it) is recovered from the
    average without loss. *)
Theorem avg_twice_is_sum (a b : Z) :
  Double.add (avg a b) (avg a b) = Double.of_int (Int32.add a b).
Proof.
  unfold avg. apply add_half_half.
  pose proof (add_abs a b). lia.
Qed.
